(** * A shallow embedding of [address_book.py]

    The module defines three value wrappers ([Field], [Name], [Phone]), the
    class [Record] (a contact with a list of phones) and the class
    [AddressBook] (a [UserDict] from contact names to records).

    Python strings are sequences of Unicode code points, and the phone check
    of the module goes through [str.isnumeric], which is defined on code
    points.  Strings are therefore modelled as lists of code points, not as
    byte strings. *)

From Stdlib Require Import NArith Ascii String.
From stdpp Require Import gmap list.

Open Scope list_scope.

(** ** Python strings *)

Abbreviation codepoint := N.
Abbreviation pystr := (list N).

(** An ASCII literal of the source, as a Python string. *)
Definition lit (s : string) : pystr :=
  map N_of_ascii (list_ascii_of_string s).

(** [len(s)]: the number of code points. *)
Definition len (s : pystr) : nat := length s.

(** The code points with a Unicode numeric value (Numeric_Type Decimal, Digit
    or Numeric), as inclusive ranges: the characters for which CPython's
    [str.isnumeric] answers [True] (Unicode 14.0, the table of CPython 3.11). *)
Definition numeric_ranges : list (N * N) :=
  [(48, 57); (178, 179); (185, 185); (188, 190); (1632, 1641); (1776, 1785);
   (1984, 1993); (2406, 2415); (2534, 2543); (2548, 2553); (2662, 2671);
   (2790, 2799); (2918, 2927); (2930, 2935); (3046, 3058); (3174, 3183);
   (3192, 3198); (3302, 3311); (3416, 3422); (3430, 3448); (3558, 3567);
   (3664, 3673); (3792, 3801); (3872, 3891); (4160, 4169); (4240, 4249);
   (4969, 4988); (5870, 5872); (6112, 6121); (6128, 6137); (6160, 6169);
   (6470, 6479); (6608, 6618); (6784, 6793); (6800, 6809); (6992, 7001);
   (7088, 7097); (7232, 7241); (7248, 7257); (8304, 8304); (8308, 8313);
   (8320, 8329); (8528, 8578); (8581, 8585); (9312, 9371); (9450, 9471);
   (10102, 10131); (11517, 11517); (12295, 12295); (12321, 12329);
   (12344, 12346); (12690, 12693); (12832, 12841); (12872, 12879);
   (12881, 12895); (12928, 12937); (12977, 12991); (13317, 13317);
   (13443, 13443); (14378, 14378); (15181, 15181); (19968, 19968);
   (19971, 19971); (19975, 19975); (19977, 19977); (20061, 20061);
   (20108, 20108); (20116, 20116); (20118, 20118); (20159, 20160);
   (20191, 20191); (20200, 20200); (20237, 20237); (20336, 20336);
   (20740, 20740); (20806, 20806); (20841, 20841); (20843, 20843);
   (20845, 20845); (21313, 21313); (21315, 21317); (21324, 21324);
   (21441, 21444); (22235, 22235); (22769, 22769); (22777, 22777);
   (24186, 24186); (24318, 24319); (24332, 24334); (24336, 24336);
   (25342, 25342); (25420, 25420); (26578, 26578); (28422, 28422);
   (29590, 29590); (30334, 30334); (32902, 32902); (33836, 33836);
   (36014, 36014); (36019, 36019); (36144, 36144); (38433, 38433);
   (38470, 38470); (38476, 38476); (38520, 38520); (38646, 38646);
   (42528, 42537); (42726, 42735); (43056, 43061); (43216, 43225);
   (43264, 43273); (43472, 43481); (43504, 43513); (43600, 43609);
   (44016, 44025); (63851, 63851); (63859, 63859); (63864, 63864);
   (63922, 63922); (63953, 63953); (63955, 63955); (63997, 63997);
   (65296, 65305); (65799, 65843); (65856, 65912); (65930, 65931);
   (66273, 66299); (66336, 66339); (66369, 66369); (66378, 66378);
   (66513, 66517); (66720, 66729); (67672, 67679); (67705, 67711);
   (67751, 67759); (67835, 67839); (67862, 67867); (68028, 68029);
   (68032, 68047); (68050, 68095); (68160, 68168); (68221, 68222);
   (68253, 68255); (68331, 68335); (68440, 68447); (68472, 68479);
   (68521, 68527); (68858, 68863); (68912, 68921); (69216, 69246);
   (69405, 69414); (69457, 69460); (69573, 69579); (69714, 69743);
   (69872, 69881); (69942, 69951); (70096, 70105); (70113, 70132);
   (70384, 70393); (70736, 70745); (70864, 70873); (71248, 71257);
   (71360, 71369); (71472, 71483); (71904, 71922); (72016, 72025);
   (72784, 72812); (73040, 73049); (73120, 73129); (73664, 73684);
   (74752, 74862); (92768, 92777); (92864, 92873); (93008, 93017);
   (93019, 93025); (93824, 93846); (119520, 119539); (119648, 119672);
   (120782, 120831); (123200, 123209); (123632, 123641); (125127, 125135);
   (125264, 125273); (126065, 126123); (126125, 126127); (126129, 126132);
   (126209, 126253); (126255, 126269); (127232, 127244); (130032, 130041);
   (131073, 131073); (131172, 131172); (131298, 131298); (131361, 131361);
   (133418, 133418); (133507, 133507); (133516, 133516); (133532, 133532);
   (133866, 133866); (133885, 133885); (133913, 133913); (140176, 140176);
   (141720, 141720); (146203, 146203); (156269, 156269); (194704, 194704)]%N.

Definition in_range (c : N) (r : N * N) : bool :=
  ((fst r <=? c) && (c <=? snd r))%N.

Definition isnumeric_char (c : N) : bool :=
  existsb (in_range c) numeric_ranges.

(** [s.isnumeric()]: every character is numeric and there is at least one. *)
Definition isnumeric (s : pystr) : bool :=
  match s with
  | [] => false
  | _ :: _ => forallb isnumeric_char s
  end.

(** The ASCII decimal digits [0] to [9], code points 48 to 57. *)
Definition is_ascii_digit (c : N) : bool := ((48 <=? c) && (c <=? 57))%N.

(** [sep.join(items)]. *)
Fixpoint join (sep : pystr) (items : list pystr) : pystr :=
  match items with
  | [] => []
  | [x] => x
  | x :: rest => x ++ sep ++ join sep rest
  end.

(** ** [Field], [Name], [Phone] *)

Record Field := mkField { value : pystr }.

(** [Name] and [Phone] inherit from [Field] and add nothing. *)
Definition Name := Field.
Definition Phone := Field.
Definition mkName (v : pystr) : Name := mkField v.
Definition mkPhone (v : pystr) : Phone := mkField v.

(** [Field.__str__]. *)
Definition Field_str (self : Field) : pystr := value self.

(** ** [Record] *)

Record ContactRecord := mkRecord { name : Name; phones : list Phone }.

(** [Record.__init__]. *)
Definition Record_init (n : pystr) : ContactRecord :=
  {| name := mkName n; phones := [] |}.

(** [Record.is_phone_valid]; [and] evaluates its right operand only when the
    left one holds. *)
Definition is_phone_valid (phone : pystr) : bool :=
  if Nat.eqb (len phone) 10 then isnumeric phone else false.

(** [Record.add_phone]: [self.phones.append(Phone(phone))] behind the check. *)
Definition add_phone (self : ContactRecord) (phone : pystr) : ContactRecord :=
  if is_phone_valid phone
  then {| name := name self; phones := phones self ++ [mkPhone phone] |}
  else self.

(** The loop of [Record.remove_phone] over [enumerate(self.phones)]: [rest] is
    what the iterator has still to yield, [index] its position and [ps] the
    list object; on the first match [del self.phones[index]], then [break]. *)
Fixpoint remove_phone_loop (phone : pystr) (index : nat) (rest ps : list Phone)
  : list Phone :=
  match rest with
  | [] => ps
  | p :: rest' =>
      if decide (value p = phone) then delete index ps
      else remove_phone_loop phone (S index) rest' ps
  end.

Definition remove_phone (self : ContactRecord) (phone : pystr) : ContactRecord :=
  {| name := name self;
     phones := remove_phone_loop phone 0 (phones self) (phones self) |}.

(** The loop of [Record.edit_phone]: on the first match
    [self.phones[index] = Phone(new_value)], then [break]. *)
Fixpoint edit_phone_loop (old_value new_value : pystr) (index : nat)
    (rest ps : list Phone) : list Phone :=
  match rest with
  | [] => ps
  | p :: rest' =>
      if decide (value p = old_value) then <[index := mkPhone new_value]> ps
      else edit_phone_loop old_value new_value (S index) rest' ps
  end.

Definition edit_phone (self : ContactRecord) (old_value new_value : pystr)
  : ContactRecord :=
  if is_phone_valid new_value
  then {| name := name self;
          phones := edit_phone_loop old_value new_value 0
                      (phones self) (phones self) |}
  else self.

(** [Record.find_phone]: the first phone with the value, or [None]. *)
Fixpoint find_phone_loop (phone : pystr) (rest : list Phone) : option Phone :=
  match rest with
  | [] => None
  | p :: rest' =>
      if decide (value p = phone) then Some p else find_phone_loop phone rest'
  end.

Definition find_phone (self : ContactRecord) (phone : pystr) : option Phone :=
  find_phone_loop phone (phones self).

(** [Record.__str__]. *)
Definition Record_str (self : ContactRecord) : pystr :=
  lit "Contact name: " ++ value (name self) ++ lit ", phones: "
    ++ join (lit "; ") (map value (phones self)).

(** ** [AddressBook] *)

(** Records are objects: the book stores references to them, and a caller
    that keeps a reference can go on calling methods on a stored record.  A
    state is the heap of [Record] objects together with the [data] dictionary
    of the book. *)
Abbreviation loc := positive.

Record World := mkWorld {
  heap : gmap positive ContactRecord;
  data : gmap (list N) positive
}.

Module AddressBook.

(** [self.data.update({record.name.value: record})]; reading
    [record.name] fails unless [record] refers to a [Record]. *)
Definition add_record (record : loc) (w : World) : option World :=
  match heap w !! record with
  | Some r =>
      Some {| heap := heap w;
              data := <[value (name r) := record]> (data w) |}
  | None => None
  end.

(** [self.data.get(name)]. *)
Definition find (name : pystr) (w : World) : option loc := data w !! name.

(** [if name in self.data: self.data.pop(name)]. *)
Definition delete (name : pystr) (w : World) : World :=
  if decide (is_Some (data w !! name))
  then {| heap := heap w; data := base.delete name (data w) |}
  else w.

End AddressBook.

(** [AddressBook()], before any record exists. *)
Definition empty_world : World := {| heap := ∅; data := ∅ |}.

(** ** Predicates on phone lists *)

(** No phone of the list has the value [phone]. *)
Definition absent (phone : pystr) (l : list Phone) : Prop :=
  Forall (fun p => value p <> phone) l.

(** The number of phones with the value [phone]. *)
Definition occurrences (phone : pystr) (l : list Phone) : nat :=
  length (filter (fun p => value p = phone) l).

(** ** Callers of [Record] *)

(** One call of a method of [Record] on [r], leaving [r']. *)
Inductive method_call (r : ContactRecord) : ContactRecord -> Prop :=
  | call_add_phone p : method_call r (add_phone r p)
  | call_remove_phone p : method_call r (remove_phone r p)
  | call_edit_phone o n : method_call r (edit_phone r o n)
  | call_find_phone p (res : option Phone) :
      find_phone r p = res -> method_call r r.

(** The records a caller obtains from [Record(name)] and method calls. *)
Inductive constructed : ContactRecord -> Prop :=
  | constructed_init n : constructed (Record_init n)
  | constructed_call r r' : constructed r -> method_call r r' -> constructed r'.

(** Every stored phone passed [is_phone_valid]. *)
Definition phones_checked (r : ContactRecord) : Prop :=
  Forall (fun p => is_phone_valid (value p) = true) (phones r).

(** ** Callers of the two classes *)

(** One statement of a caller: create a record, call a method on a record,
    or call a method of the book. *)
Inductive step (w : World) : World -> Prop :=
  | step_Record l n :
      heap w !! l = None ->
      step w {| heap := <[l := Record_init n]> (heap w); data := data w |}
  | step_method l r r' :
      heap w !! l = Some r -> method_call r r' ->
      step w {| heap := <[l := r']> (heap w); data := data w |}
  | step_add_record record w' :
      AddressBook.add_record record w = Some w' -> step w w'
  | step_find n (res : option loc) :
      AddressBook.find n w = res -> step w w
  | step_delete n : step w (AddressBook.delete n w).

Inductive run : World -> Prop :=
  | run_start : run empty_world
  | run_step w w' : run w -> step w w' -> run w'.

(** Every entry of the book refers to a live record filed under its name. *)
Definition keyed_by_name (w : World) : Prop :=
  forall k l, data w !! k = Some l ->
    exists r, heap w !! l = Some r /\ value (name r) = k.

(** ** Sample values *)

(** Ten times VULGAR FRACTION ONE HALF (U+00BD). *)
Definition ten_halves : pystr := repeat 189%N 10.

(** A fresh record that was given the phone [ten_halves]. *)
Definition halves_record : ContactRecord :=
  add_phone (Record_init (lit "John Doe")) ten_halves.

(** A record holding the phone 1234567890 twice. *)
Definition twice_record : ContactRecord :=
  add_phone (add_phone (Record_init (lit "John Doe")) (lit "1234567890"))
    (lit "1234567890").

(** A record with the phones 5555555555, 1234567890, 5555555555. *)
Definition three_record : ContactRecord :=
  add_phone (add_phone (add_phone (Record_init (lit "John Doe"))
    (lit "5555555555")) (lit "1234567890")) (lit "5555555555").

(** A state with two records named Jane Doe, the first with a phone, the
    book still empty. *)
Definition jane_with_phone : ContactRecord :=
  add_phone (Record_init (lit "Jane Doe")) (lit "1234567890").

Definition jane_world : World :=
  {| heap := {[ 1%positive := jane_with_phone;
                2%positive := Record_init (lit "Jane Doe") ]};
     data := ∅ |}.

(** [jane_world] after the first record was added to the book. *)
Definition jane_booked_world : World :=
  {| heap := heap jane_world; data := {[ lit "Jane Doe" := 1%positive ]} |}.

(** A state with Jane Doe and John Doe, John Doe being in the book. *)
Definition john_world : World :=
  {| heap := {[ 1%positive := Record_init (lit "Jane Doe");
                2%positive := Record_init (lit "John Doe") ]};
     data := {[ lit "John Doe" := 2%positive ]} |}.

(** * Properties *)

(** ** The phone check *)

Lemma isnumeric_forallb (s : pystr) :
  s <> [] -> isnumeric s = forallb isnumeric_char s.
Proof. destruct s as [|c s]; [congruence | reflexivity]. Qed.

(** What the check of the code accepts: ten characters, each with a Unicode
    numeric value. *)
Lemma is_phone_valid_iff (s : pystr) :
  is_phone_valid s = true <->
  len s = 10 /\ Forall (fun c => isnumeric_char c = true) s.
Proof.
  unfold is_phone_valid, len.
  destruct (Nat.eqb_spec (length s) 10) as [E|E].
  - rewrite isnumeric_forallb by (intros ->; discriminate E).
    rewrite forallb_forall, Forall_forall.
    setoid_rewrite list_elem_of_In. tauto.
  - split; [discriminate | tauto].
Qed.

Lemma ascii_digit_numeric (c : N) :
  is_ascii_digit c = true -> isnumeric_char c = true.
Proof.
  intros H. apply existsb_exists. exists (48, 57)%N.
  split; [left; reflexivity | exact H].
Qed.

(** Below code point 128 the numeric characters are the ten ASCII digits. *)
Lemma numeric_below_128 (c : N) :
  (c < 128)%N -> isnumeric_char c = true -> is_ascii_digit c = true.
Proof.
  intros Hc H. apply existsb_exists in H as [r [[<-|Hin] Hr]]; [exact Hr|].
  assert (Hlo : forallb (fun r => (128 <=? fst r)%N) (tl numeric_ranges) = true)
    by (vm_compute; reflexivity).
  rewrite forallb_forall in Hlo. specialize (Hlo r Hin).
  unfold in_range in Hr. apply andb_true_iff in Hr as [Hr _].
  apply N.leb_le in Hlo, Hr. lia.
Qed.

(** Ten ASCII digits pass the check. *)
Lemma ascii_digits_valid (s : pystr) :
  len s = 10 -> Forall (fun c => is_ascii_digit c = true) s ->
  is_phone_valid s = true.
Proof.
  intros Hl Hd. apply is_phone_valid_iff. split; [exact Hl|].
  eapply Forall_impl; [exact Hd|]. intros c. apply ascii_digit_numeric.
Qed.

(** On ASCII input the check is the ten-digit rule. *)
Lemma is_phone_valid_ascii (s : pystr) :
  Forall (fun c => (c < 128)%N) s ->
  is_phone_valid s = true <->
  len s = 10 /\ Forall (fun c => is_ascii_digit c = true) s.
Proof.
  intros Ha. split.
  - intros [Hl Hn]%is_phone_valid_iff. split; [exact Hl|].
    rewrite Forall_forall in *. intros c Hc.
    apply numeric_below_128; auto.
  - intros [Hl Hd]. by apply ascii_digits_valid.
Qed.

(** C1 (the code departs from the claim): the check accepts the ten-character
    string made of U+00BD, none of whose characters is an ASCII decimal digit,
    so that validity is not equivalent to "ten ASCII digits". *)
Theorem is_phone_valid_accepts_non_digits :
  is_phone_valid ten_halves = true /\
  len ten_halves = 10 /\
  Forall (fun c => is_ascii_digit c = false) ten_halves /\
  ~ (forall s : pystr,
       is_phone_valid s = true <->
       len s = 10 /\ Forall (fun c => is_ascii_digit c = true) s).
Proof.
  assert (Hv : is_phone_valid ten_halves = true) by reflexivity.
  split; [exact Hv|]. split; [reflexivity|]. split.
  - unfold ten_halves. simpl. repeat constructor.
  - intros H. apply H in Hv as [_ Hd].
    apply Forall_inv in Hd. discriminate Hd.
Qed.

(** ** The loops over the phone list *)

Section PhoneLoops.
Variable phone : pystr.

Lemma absent_or_first (l : list Phone) :
  absent phone l \/
  exists l1 p l2, l = l1 ++ p :: l2 /\ absent phone l1 /\ value p = phone.
Proof.
  induction l as [|q l IH]; [left; constructor|].
  destruct (decide (value q = phone)) as [E|E].
  - right. exists [], q, l. repeat split; [constructor | exact E].
  - destruct IH as [IH|(l1 & p & l2 & -> & H1 & Hp)].
    + left. by constructor.
    + right. exists (q :: l1), p, l2. repeat split; [by constructor | exact Hp].
Qed.

Lemma occurrences_absent (l : list Phone) : absent phone l <-> occurrences phone l = 0.
Proof.
  unfold absent, occurrences. induction l as [|q l IH]; [by split; [|constructor]|].
  rewrite filter_cons. destruct (decide (value q = phone)) as [E|E]; simpl.
  - split; [|discriminate]. intros H. apply Forall_inv in H. contradiction.
  - rewrite <- IH. split; [apply Forall_inv_tail | by constructor].
Qed.

Lemma occurrences_app (l1 l2 : list Phone) :
  occurrences phone (l1 ++ l2) = occurrences phone l1 + occurrences phone l2.
Proof. unfold occurrences. by rewrite filter_app, length_app. Qed.

Lemma occurrences_cons (p : Phone) (l : list Phone) :
  occurrences phone (p :: l) =
  (if decide (value p = phone) then 1 else 0) + occurrences phone l.
Proof.
  unfold occurrences. rewrite filter_cons. by destruct (decide (value p = phone)).
Qed.

Lemma find_phone_loop_absent (l : list Phone) :
  find_phone_loop phone l = None <-> absent phone l.
Proof.
  unfold absent. induction l as [|q l IH]; simpl; [by split; [constructor|]|].
  destruct (decide (value q = phone)) as [E|E].
  - split; [discriminate|]. intros H. apply Forall_inv in H. contradiction.
  - rewrite IH. split; [by constructor | apply Forall_inv_tail].
Qed.

Lemma find_phone_loop_first (l1 l2 : list Phone) (p : Phone) :
  absent phone l1 -> value p = phone ->
  find_phone_loop phone (l1 ++ p :: l2) = Some p.
Proof.
  intros H1 Hp. induction H1 as [|q l1 Hq _ IH]; simpl.
  - by rewrite decide_True.
  - by rewrite decide_False.
Qed.

Lemma find_phone_loop_value (l : list Phone) (p : Phone) :
  find_phone_loop phone l = Some p -> value p = phone /\ p ∈ l.
Proof.
  induction l as [|q l IH]; simpl; [discriminate|].
  destruct (decide (value q = phone)) as [E|E].
  - intros [= <-]. split; [exact E | left].
  - intros [Hv Hin]%IH. split; [exact Hv | by right].
Qed.

Lemma remove_phone_loop_absent (i : nat) (rest ps : list Phone) :
  absent phone rest -> remove_phone_loop phone i rest ps = ps.
Proof.
  intros H. revert i. induction H as [|q rest Hq _ IH]; intros i; simpl; [done|].
  by rewrite decide_False.
Qed.

Lemma remove_phone_loop_first (pre l1 l2 : list Phone) (p : Phone) :
  absent phone l1 -> value p = phone ->
  remove_phone_loop phone (length pre) (l1 ++ p :: l2) (pre ++ l1 ++ p :: l2)
  = pre ++ l1 ++ l2.
Proof.
  intros H1 Hp. revert pre. induction H1 as [|q l1 Hq _ IH]; intros pre; simpl.
  - rewrite decide_True by done. apply delete_middle.
  - rewrite decide_False by done.
    specialize (IH (pre ++ [q])). rewrite length_app in IH. simpl in IH.
    rewrite Nat.add_1_r, <- !app_assoc in IH. exact IH.
Qed.

Lemma edit_phone_loop_absent (new_value : pystr) (i : nat) (rest ps : list Phone) :
  absent phone rest -> edit_phone_loop phone new_value i rest ps = ps.
Proof.
  intros H. revert i. induction H as [|q rest Hq _ IH]; intros i; simpl; [done|].
  by rewrite decide_False.
Qed.

Lemma edit_phone_loop_first (new_value : pystr) (pre l1 l2 : list Phone) (p : Phone) :
  absent phone l1 -> value p = phone ->
  edit_phone_loop phone new_value (length pre) (l1 ++ p :: l2)
    (pre ++ l1 ++ p :: l2)
  = pre ++ l1 ++ mkPhone new_value :: l2.
Proof.
  intros H1 Hp. revert pre. induction H1 as [|q l1 Hq _ IH]; intros pre; simpl.
  - rewrite decide_True by done.
    replace (length pre) with (length pre + 0) by lia.
    by rewrite insert_app_r.
  - rewrite decide_False by done.
    specialize (IH (pre ++ [q])). rewrite length_app in IH. simpl in IH.
    rewrite Nat.add_1_r, <- !app_assoc in IH. exact IH.
Qed.
End PhoneLoops.

(** The three methods, by the position of the first phone with the value. *)

Lemma find_phone_None (r : ContactRecord) (phone : pystr) :
  find_phone r phone = None <-> absent phone (phones r).
Proof. apply find_phone_loop_absent. Qed.

Lemma remove_phone_absent (r : ContactRecord) (phone : pystr) :
  absent phone (phones r) -> remove_phone r phone = r.
Proof.
  intros H. unfold remove_phone. rewrite remove_phone_loop_absent by done.
  by destruct r.
Qed.

Lemma remove_phone_first (r : ContactRecord) (phone : pystr)
    (l1 l2 : list Phone) (p : Phone) :
  phones r = l1 ++ p :: l2 -> absent phone l1 -> value p = phone ->
  remove_phone r phone = {| name := name r; phones := l1 ++ l2 |}.
Proof.
  intros E H1 Hp. unfold remove_phone. rewrite E. f_equal.
  exact (remove_phone_loop_first phone [] l1 l2 p H1 Hp).
Qed.

Lemma edit_phone_invalid (r : ContactRecord) (old_value new_value : pystr) :
  is_phone_valid new_value = false -> edit_phone r old_value new_value = r.
Proof. intros H. unfold edit_phone. by rewrite H. Qed.

Lemma edit_phone_absent (r : ContactRecord) (old_value new_value : pystr) :
  absent old_value (phones r) -> edit_phone r old_value new_value = r.
Proof.
  intros H. unfold edit_phone. destruct (is_phone_valid new_value); [|done].
  rewrite edit_phone_loop_absent by done. by destruct r.
Qed.

Lemma edit_phone_first (r : ContactRecord) (old_value new_value : pystr)
    (l1 l2 : list Phone) (p : Phone) :
  is_phone_valid new_value = true ->
  phones r = l1 ++ p :: l2 -> absent old_value l1 -> value p = old_value ->
  edit_phone r old_value new_value
  = {| name := name r; phones := l1 ++ mkPhone new_value :: l2 |}.
Proof.
  intros Hv E H1 Hp. unfold edit_phone. rewrite Hv, E. f_equal.
  exact (edit_phone_loop_first old_value new_value [] l1 l2 p H1 Hp).
Qed.

(** ** Records built through the class *)

Lemma method_call_name (r r' : ContactRecord) :
  method_call r r' -> name r' = name r.
Proof.
  intros [p|p|o n|p res _]; try done.
  - unfold add_phone. by destruct (is_phone_valid p).
  - unfold edit_phone. by destruct (is_phone_valid n).
Qed.

Lemma method_call_checked (r r' : ContactRecord) :
  phones_checked r -> method_call r r' -> phones_checked r'.
Proof.
  unfold phones_checked. intros Hr [p|p|o n|p res _]; try done.
  - unfold add_phone. destruct (is_phone_valid p) eqn:Hp; [simpl|done].
    apply Forall_app. split; [done|]. by repeat constructor.
  - destruct (absent_or_first p (phones r)) as [H|(l1 & q & l2 & E & H1 & Hq)].
    + by rewrite remove_phone_absent.
    + rewrite (remove_phone_first r p l1 l2 q) by done. simpl.
      rewrite E in Hr. apply Forall_app in Hr as [Hl1 Hl2].
      apply Forall_app. split; [done | by apply Forall_inv_tail in Hl2].
  - destruct (is_phone_valid n) eqn:Hn; [|by rewrite edit_phone_invalid].
    destruct (absent_or_first o (phones r)) as [H|(l1 & q & l2 & E & H1 & Hq)].
    + by rewrite edit_phone_absent.
    + rewrite (edit_phone_first r o n l1 l2 q) by done. simpl.
      rewrite E in Hr. apply Forall_app in Hr as [Hl1 Hl2].
      apply Forall_app. split; [done|].
      constructor; [done | by apply Forall_inv_tail in Hl2].
Qed.

(** The invariant of the class, in terms of its own check. *)
Lemma constructed_checked (r : ContactRecord) :
  constructed r -> phones_checked r.
Proof.
  induction 1 as [n|r r' _ IH Hc]; [constructor|].
  by apply (method_call_checked r).
Qed.

Lemma constructed_add_phone (r : ContactRecord) (p : pystr) :
  constructed r -> constructed (add_phone r p).
Proof. intros H. apply (constructed_call r); [exact H | constructor]. Qed.

(** C2 (the code departs from the claim): [add_phone] stores the ten-character
    string of U+00BD in a fresh record, so a record built through the class
    can hold a phone that is not made of decimal digits. *)
Theorem add_phone_stores_non_digits :
  constructed halves_record /\
  phones halves_record = [mkPhone ten_halves] /\
  Forall (fun c => is_ascii_digit c = false) ten_halves /\
  ~ (forall r, constructed r ->
       Forall (fun p => len (value p) = 10 /\
                        Forall (fun c => is_ascii_digit c = true) (value p))
              (phones r)).
Proof.
  assert (Hc : constructed halves_record) by (repeat econstructor).
  split; [exact Hc|]. split; [reflexivity|]. split.
  - unfold ten_halves. simpl. repeat constructor.
  - intros H. apply H in Hc. apply Forall_inv in Hc as [_ Hd].
    apply Forall_inv in Hd. discriminate Hd.
Qed.

(** C3: on a record built through the class, [add_phone(p)] followed by
    [find_phone(p)] yields a phone of value [p] exactly when [p] passes
    [is_phone_valid]; a rejected [p] leaves the record as it was, an accepted
    one is appended at the end of the phone list. *)
Theorem add_phone_then_find (r : ContactRecord) (p : pystr) :
  constructed r ->
  ((exists ph, find_phone (add_phone r p) p = Some ph /\ value ph = p)
     <-> is_phone_valid p = true) /\
  (is_phone_valid p = false -> add_phone r p = r) /\
  (is_phone_valid p = true ->
     add_phone r p = {| name := name r; phones := phones r ++ [mkPhone p] |}).
Proof.
  intros Hc. unfold add_phone. destruct (is_phone_valid p) eqn:Hp.
  - split; [|done]. split; [done|]. intros _.
    destruct (find_phone {| name := name r; phones := phones r ++ [mkPhone p] |} p)
      as [ph|] eqn:Hf.
    + exists ph. split; [done|]. by apply find_phone_loop_value in Hf as [? _].
    + apply find_phone_None in Hf. simpl in Hf.
      apply Forall_app in Hf as [_ Hf]. by apply Forall_inv in Hf.
  - split; [|done]. split; [|discriminate].
    intros (ph & Hf & Hv). apply find_phone_loop_value in Hf as [_ Hin].
    apply constructed_checked in Hc. unfold phones_checked in Hc.
    rewrite Forall_forall in Hc. apply Hc in Hin. congruence.
Qed.

Lemma add_phone_then_find_witness :
  constructed (Record_init (lit "John Doe")) /\
  ((exists ph, find_phone (add_phone (Record_init (lit "John Doe"))
                             (lit "1234567890")) (lit "1234567890") = Some ph
               /\ value ph = lit "1234567890")
     <-> is_phone_valid (lit "1234567890") = true).
Proof.
  split; [constructor|].
  apply (add_phone_then_find (Record_init (lit "John Doe")) (lit "1234567890")).
  constructor.
Defined.

(** C4, as stated, fails when the old value is stored twice: the edit succeeds
    (the new value is valid, the old one is present) and [find_phone] still
    finds the old value afterwards. *)
Lemma edit_phone_old_still_found :
  constructed twice_record /\
  is_phone_valid (lit "0987654321") = true /\
  find_phone twice_record (lit "1234567890") = Some (mkPhone (lit "1234567890")) /\
  phones (edit_phone twice_record (lit "1234567890") (lit "0987654321"))
    = [mkPhone (lit "0987654321"); mkPhone (lit "1234567890")] /\
  find_phone (edit_phone twice_record (lit "1234567890") (lit "0987654321"))
    (lit "1234567890") = Some (mkPhone (lit "1234567890")).
Proof.
  split; [repeat apply constructed_add_phone; constructor|].
  split; [reflexivity|]. split; [reflexivity|]. split; reflexivity.
Qed.

(** C4 (amended): after [edit_phone(old, new)] with [new] valid and [old]
    present, the first phone of value [old] has been replaced, at its own
    position, by a phone of value [new] and every other position is as
    before; [find_phone(new)] yields a phone of value [new]; and
    [find_phone(old)] yields [None] exactly when [old] differs from [new]
    and was stored once. *)
Theorem edit_phone_success (r : ContactRecord) (old_value new_value : pystr) :
  is_phone_valid new_value = true ->
  find_phone r old_value <> None ->
  exists l1 p l2,
    phones r = l1 ++ p :: l2 /\ absent old_value l1 /\ value p = old_value /\
    edit_phone r old_value new_value
      = {| name := name r; phones := l1 ++ mkPhone new_value :: l2 |} /\
    phones r !! length l1 = Some p /\
    phones (edit_phone r old_value new_value) !! length l1
      = Some (mkPhone new_value) /\
    (exists q, find_phone (edit_phone r old_value new_value) new_value = Some q
               /\ value q = new_value) /\
    (find_phone (edit_phone r old_value new_value) old_value = None
       <-> old_value <> new_value /\ occurrences old_value (phones r) = 1).
Proof.
  intros Hv Hf.
  destruct (absent_or_first old_value (phones r))
    as [H|(l1 & p & l2 & E & H1 & Hp)]; [by apply find_phone_None in H|].
  exists l1, p, l2.
  rewrite (edit_phone_first r old_value new_value l1 l2 p) by done.
  rewrite E. simpl. repeat split; try done.
  - by rewrite list_lookup_middle.
  - by rewrite list_lookup_middle.
  - destruct (find_phone_loop new_value (l1 ++ mkPhone new_value :: l2))
      as [q|] eqn:Hq.
    + exists q. split; [done|]. by apply find_phone_loop_value in Hq as [? _].
    + apply find_phone_loop_absent, Forall_app in Hq as [_ Hq].
      by apply Forall_inv in Hq.
  - apply find_phone_None, Forall_app in H as [_ H]. simpl in H.
    apply Forall_inv in H. simpl in H. congruence.
  - apply find_phone_None, Forall_app in H as [_ H]. simpl in H.
    apply Forall_inv_tail in H. apply occurrences_absent in H, H1.
    rewrite occurrences_app, occurrences_cons, decide_True by done. lia.
  - intros [Hne Ho]. apply find_phone_None, Forall_app. simpl.
    split; [done|]. constructor; [simpl; congruence|].
    apply occurrences_absent. apply occurrences_absent in H1.
    rewrite occurrences_app, occurrences_cons, decide_True in Ho by done. lia.
Qed.

Lemma edit_phone_success_witness :
  is_phone_valid (lit "0987654321") = true /\
  find_phone twice_record (lit "1234567890") <> None /\
  exists l1 p l2,
    phones twice_record = l1 ++ p :: l2 /\
    absent (lit "1234567890") l1 /\ value p = lit "1234567890" /\
    edit_phone twice_record (lit "1234567890") (lit "0987654321")
      = {| name := name twice_record;
           phones := l1 ++ mkPhone (lit "0987654321") :: l2 |}.
Proof.
  split; [reflexivity|]. split; [discriminate|].
  destruct (edit_phone_success twice_record (lit "1234567890") (lit "0987654321"))
    as (l1 & p & l2 & E & H1 & Hp & He & _); [reflexivity | discriminate |].
  exists l1, p, l2. repeat split; assumption.
Defined.

(** C5: [edit_phone(old, new)] leaves the record as it is when [new] is not
    valid, whatever [old] is, and when no stored phone has the value [old];
    with [new] valid it replaces the first phone of value [old], in place. *)
Theorem edit_phone_cases (r : ContactRecord) (old_value new_value : pystr) :
  (is_phone_valid new_value = false -> edit_phone r old_value new_value = r) /\
  (absent old_value (phones r) -> edit_phone r old_value new_value = r) /\
  (is_phone_valid new_value = true ->
   forall l1 p l2,
     phones r = l1 ++ p :: l2 -> absent old_value l1 -> value p = old_value ->
     edit_phone r old_value new_value
       = {| name := name r; phones := l1 ++ mkPhone new_value :: l2 |}).
Proof.
  split; [apply edit_phone_invalid|]. split; [apply edit_phone_absent|].
  intros Hv l1 p l2. by apply edit_phone_first.
Qed.

Lemma edit_phone_cases_witness :
  edit_phone three_record (lit "1234567890") (lit "12345") = three_record /\
  edit_phone three_record (lit "0000000000") (lit "0987654321") = three_record /\
  edit_phone three_record (lit "5555555555") (lit "0987654321")
    = {| name := name three_record;
         phones := [] ++ mkPhone (lit "0987654321")
                     :: [mkPhone (lit "1234567890"); mkPhone (lit "5555555555")] |}.
Proof.
  split; [|split].
  - apply (proj1 (edit_phone_cases three_record (lit "1234567890") (lit "12345"))).
    reflexivity.
  - apply (proj1 (proj2 (edit_phone_cases three_record (lit "0000000000")
                           (lit "0987654321")))).
    repeat constructor; discriminate.
  - apply (proj2 (proj2 (edit_phone_cases three_record (lit "5555555555")
                           (lit "0987654321"))))
      with (p := mkPhone (lit "5555555555"));
      first [reflexivity | constructor].
Defined.

(** C6: [remove_phone(p)] deletes the first phone whose value is [p] and
    nothing else, so later phones of the same value stay and the count of
    [p] drops by one; with no phone of value [p] the record is unchanged. *)
Theorem remove_phone_cases (r : ContactRecord) (p : pystr) :
  (absent p (phones r) -> remove_phone r p = r) /\
  (forall l1 q l2,
     phones r = l1 ++ q :: l2 -> absent p l1 -> value q = p ->
     remove_phone r p = {| name := name r; phones := l1 ++ l2 |}) /\
  occurrences p (phones (remove_phone r p)) = occurrences p (phones r) - 1 /\
  length (phones r) - 1 <= length (phones (remove_phone r p)).
Proof.
  split; [apply remove_phone_absent|].
  split; [intros l1 q l2; apply remove_phone_first|].
  destruct (absent_or_first p (phones r)) as [H|(l1 & q & l2 & E & H1 & Hq)].
  - rewrite remove_phone_absent by done.
    apply occurrences_absent in H. lia.
  - rewrite (remove_phone_first r p l1 l2 q) by done. rewrite E. simpl.
    rewrite !occurrences_app, occurrences_cons, decide_True by done.
    rewrite !length_app. simpl. lia.
Qed.

Lemma remove_phone_cases_witness :
  remove_phone three_record (lit "0000000000") = three_record /\
  remove_phone three_record (lit "5555555555")
    = {| name := name three_record;
         phones := [] ++ [mkPhone (lit "1234567890"); mkPhone (lit "5555555555")] |}.
Proof.
  split.
  - apply (proj1 (remove_phone_cases three_record (lit "0000000000"))).
    repeat constructor; discriminate.
  - apply (proj1 (proj2 (remove_phone_cases three_record (lit "5555555555"))))
      with (q := mkPhone (lit "5555555555"));
      first [reflexivity | constructor].
Defined.

(** ** Display *)

Lemma join_cons (sep x : pystr) (rest : list pystr) :
  join sep (x :: rest) = x ++ concat (map (fun y => sep ++ y) rest).
Proof.
  revert x. induction rest as [|y rest IH]; intros x.
  - simpl. by rewrite app_nil_r.
  - change (join sep (x :: y :: rest)) with (x ++ sep ++ join sep (y :: rest)).
    rewrite IH. simpl. by rewrite <- app_assoc.
Qed.

(** C9: the display string is the name after [Contact name: ], then
    [, phones: ], then the phone values with [; ] between consecutive ones;
    with no phone nothing follows [phones: ], as for a fresh John Doe. *)
Theorem Record_str_format (n : Name) :
  Record_str {| name := n; phones := [] |}
    = lit "Contact name: " ++ value n ++ lit ", phones: " /\
  (forall p ps,
     Record_str {| name := n; phones := p :: ps |}
       = lit "Contact name: " ++ value n ++ lit ", phones: "
           ++ value p ++ concat (map (fun q => lit "; " ++ value q) ps)) /\
  (forall p1 p2,
     Record_str {| name := n; phones := [p1; p2] |}
       = lit "Contact name: " ++ value n ++ lit ", phones: "
           ++ value p1 ++ lit "; " ++ value p2) /\
  Record_str (Record_init (lit "John Doe"))
    = lit "Contact name: John Doe, phones: ".
Proof.
  unfold Record_str. cbn [phones name]. split; [|split; [|split]].
  - cbn [map join]. by rewrite app_nil_r.
  - intros p ps. by rewrite map_cons, join_cons, map_map.
  - intros p1 p2. reflexivity.
  - reflexivity.
Qed.

(** ** The address book *)

Lemma step_keyed_by_name (w w' : World) :
  keyed_by_name w -> step w w' -> keyed_by_name w'.
Proof.
  unfold keyed_by_name.
  intros Hw [l n Hl|l r r' Hl Hc|record w'' Ha|n res _|n] k l'; simpl.
  - intros (r & Hr & Hk)%Hw. exists r. split; [|done].
    rewrite lookup_insert_ne; [done | congruence].
  - intros (r0 & Hr & Hk)%Hw. destruct (decide (l = l')) as [<-|Hne].
    + exists r'. rewrite lookup_insert_eq. split; [done|].
      rewrite (method_call_name r r' Hc). congruence.
    + exists r0. by rewrite lookup_insert_ne.
  - unfold AddressBook.add_record in Ha.
    destruct (heap w !! record) as [r|] eqn:Hr; [|discriminate].
    injection Ha as <-. simpl.
    destruct (decide (value (name r) = k)) as [<-|Hne].
    + rewrite lookup_insert_eq. intros [= <-]. by exists r.
    + rewrite lookup_insert_ne by done. apply Hw.
  - apply Hw.
  - unfold AddressBook.delete. case_decide; [simpl|apply Hw].
    intros [_ Hk]%lookup_delete_Some. by apply Hw.
Qed.

Lemma run_keyed_by_name (w : World) : run w -> keyed_by_name w.
Proof.
  induction 1 as [|w w' _ IH Hs].
  - intros k l. simpl. by rewrite lookup_empty.
  - by apply (step_keyed_by_name w).
Qed.

Lemma run_jane_world : run jane_world.
Proof.
  apply (run_step
           {| heap := {[ 1%positive := jane_with_phone ]}; data := ∅ |});
    [apply (run_step
              {| heap := {[ 1%positive := Record_init (lit "Jane Doe") ]};
                 data := ∅ |});
       [apply (run_step empty_world); [apply run_start|]|]|].
  - exact (step_Record empty_world 1%positive (lit "Jane Doe") eq_refl).
  - exact (step_method
             {| heap := {[ 1%positive := Record_init (lit "Jane Doe") ]};
                data := ∅ |}
             1%positive (Record_init (lit "Jane Doe")) jane_with_phone
             eq_refl (call_add_phone _ (lit "1234567890"))).
  - exact (step_Record {| heap := {[ 1%positive := jane_with_phone ]}; data := ∅ |}
             2%positive (lit "Jane Doe") eq_refl).
Defined.

(** C7: [add_record(record)] succeeds on a live record and [find] on its name
    then returns that very record, unmodified; after [delete(n)], [find(n)]
    returns [None]; and [delete(n)] changes nothing when [n] is not a key. *)
Theorem add_find_delete (w : World) :
  (forall record r,
     heap w !! record = Some r ->
     exists w', AddressBook.add_record record w = Some w' /\
                AddressBook.find (value (name r)) w' = Some record /\
                heap w' !! record = Some r) /\
  (forall n, AddressBook.find n (AddressBook.delete n w) = None) /\
  (forall n, AddressBook.find n w = None -> AddressBook.delete n w = w).
Proof.
  split; [|split].
  - intros record r Hr. unfold AddressBook.add_record. rewrite Hr.
    eexists. split; [reflexivity|]. split; [|done].
    unfold AddressBook.find. simpl. apply lookup_insert_eq.
  - intros n. unfold AddressBook.delete, AddressBook.find.
    case_decide as Hn; simpl.
    + apply lookup_delete_eq.
    + by apply eq_None_not_Some.
  - intros n Hn. unfold AddressBook.delete, AddressBook.find in *.
    rewrite decide_False; [done|]. rewrite Hn. by intros [? ?].
Qed.

Lemma add_find_delete_witness :
  (exists w', AddressBook.add_record 1%positive jane_world = Some w' /\
              AddressBook.find (lit "Jane Doe") w' = Some 1%positive /\
              heap w' !! 1%positive = Some jane_with_phone) /\
  AddressBook.delete (lit "Jane Doe") jane_world = jane_world.
Proof.
  split.
  - apply (proj1 (add_find_delete jane_world) 1%positive jane_with_phone).
    reflexivity.
  - apply (proj2 (proj2 (add_find_delete jane_world)) (lit "Jane Doe")).
    reflexivity.
Defined.

(** C8: adding [rec1] and then [rec2], two records of the same name, leaves
    the book as if only [rec2] had been added: [find] on the name returns
    [rec2], and no key of the book leads to [rec1] any more. *)
Theorem add_record_overwrites (w : World) (rec1 rec2 : loc)
    (r1 r2 : ContactRecord) :
  run w ->
  heap w !! rec1 = Some r1 -> heap w !! rec2 = Some r2 ->
  value (name r1) = value (name r2) -> rec1 <> rec2 ->
  exists w1 w2,
    AddressBook.add_record rec1 w = Some w1 /\
    AddressBook.add_record rec2 w1 = Some w2 /\
    AddressBook.find (value (name r1)) w2 = Some rec2 /\
    AddressBook.add_record rec2 w = Some w2 /\
    (forall k, AddressBook.find k w2 <> Some rec1).
Proof.
  intros Hrun H1 H2 Hn Hne. unfold AddressBook.add_record, AddressBook.find.
  rewrite H1, H2. do 2 eexists. split; [reflexivity|]. simpl. rewrite H2.
  split; [reflexivity|]. simpl. rewrite Hn, insert_insert_eq.
  split; [apply lookup_insert_eq|]. split; [reflexivity|].
  intros k. destruct (decide (value (name r2) = k)) as [<-|Hk].
  - rewrite lookup_insert_eq. congruence.
  - rewrite lookup_insert_ne by done. intros Hf.
    apply run_keyed_by_name in Hrun.
    destruct (Hrun k rec1 Hf) as (r & Hr & Hrk). congruence.
Qed.

Lemma add_record_overwrites_witness :
  exists w1 w2,
    AddressBook.add_record 1%positive jane_world = Some w1 /\
    AddressBook.add_record 2%positive w1 = Some w2 /\
    AddressBook.find (value (name jane_with_phone)) w2 = Some 2%positive /\
    AddressBook.add_record 2%positive jane_world = Some w2 /\
    (forall k, AddressBook.find k w2 <> Some 1%positive).
Proof.
  apply (add_record_overwrites jane_world 1%positive 2%positive
           jane_with_phone (Record_init (lit "Jane Doe"))).
  - exact run_jane_world.
  - reflexivity.
  - reflexivity.
  - reflexivity.
  - discriminate.
Defined.

(** C10: [add_record] and [delete] leave the entry of every key other than
    the one they are given as it was, and neither changes any record. *)
Theorem directory_frame (w : World) (k : pystr) :
  (forall record r w',
     heap w !! record = Some r -> value (name r) <> k ->
     AddressBook.add_record record w = Some w' ->
     AddressBook.find k w' = AddressBook.find k w) /\
  (forall n, n <> k ->
     AddressBook.find k (AddressBook.delete n w) = AddressBook.find k w) /\
  (forall record w',
     AddressBook.add_record record w = Some w' -> heap w' = heap w) /\
  (forall n, heap (AddressBook.delete n w) = heap w).
Proof.
  unfold AddressBook.add_record, AddressBook.delete, AddressBook.find.
  split; [|split; [|split]].
  - intros record r w' Hr Hne. rewrite Hr. intros [= <-]. simpl.
    by apply lookup_insert_ne.
  - intros n Hne. case_decide; [simpl|done]. by apply lookup_delete_ne.
  - intros record w'. destruct (heap w !! record); [|discriminate].
    by intros [= <-].
  - intros n. by case_decide.
Qed.

Lemma directory_frame_witness :
  (exists w', AddressBook.add_record 1%positive john_world = Some w' /\
              AddressBook.find (lit "John Doe") w'
                = AddressBook.find (lit "John Doe") john_world) /\
  AddressBook.find (lit "John Doe") (AddressBook.delete (lit "Jane Doe") john_world)
    = AddressBook.find (lit "John Doe") john_world.
Proof.
  split.
  - eexists. split; [reflexivity|].
    apply (proj1 (directory_frame john_world (lit "John Doe")) 1%positive
             (Record_init (lit "Jane Doe"))); [reflexivity | discriminate | reflexivity].
  - apply (proj1 (proj2 (directory_frame john_world (lit "John Doe")))).
    discriminate.
Defined.

(** * Further properties of the two classes *)

(** ** More on the phone check *)

(** X1: on a string of ASCII characters, [is_phone_valid] holds exactly for
    the strings of ten decimal digits. *)
Theorem is_phone_valid_on_ascii (s : pystr) :
  Forall (fun c => (c < 128)%N) s ->
  is_phone_valid s = true <->
  len s = 10 /\ Forall (fun c => is_ascii_digit c = true) s.
Proof.
  intros Ha. rewrite is_phone_valid_iff.
  split; intros [Hl H]; (split; [exact Hl|]).
  - rewrite Forall_forall in *. intros c Hc.
    apply numeric_below_128; [by apply Ha | by apply H].
  - eapply Forall_impl; [exact H|]. apply ascii_digit_numeric.
Qed.

Lemma is_phone_valid_on_ascii_witness :
  Forall (fun c => (c < 128)%N) (lit "1234567890") /\
  (is_phone_valid (lit "1234567890") = true <->
   len (lit "1234567890") = 10 /\
   Forall (fun c => is_ascii_digit c = true) (lit "1234567890")).
Proof.
  assert (H : Forall (fun c => (c < 128)%N) (lit "1234567890"))
    by (repeat constructor).
  split; [exact H|].
  exact (is_phone_valid_on_ascii (lit "1234567890") H).
Defined.

(** X2: [is_phone_valid] rejects every string whose length is not ten, and
    every string that holds an ASCII character other than a decimal digit
    (a letter, a space, a sign, a bracket), whatever its other characters. *)
Theorem is_phone_valid_rejects (s : pystr) :
  (len s <> 10 -> is_phone_valid s = false) /\
  (forall c, c ∈ s -> (c < 128)%N -> is_ascii_digit c = false ->
     is_phone_valid s = false).
Proof.
  split.
  - intros Hl. apply not_true_is_false. by intros [? _]%is_phone_valid_iff.
  - intros c Hin Hc Hd. apply not_true_is_false.
    intros [_ Hn]%is_phone_valid_iff. rewrite Forall_forall in Hn.
    apply Hn, numeric_below_128 in Hin; [congruence | done].
Qed.

Lemma is_phone_valid_rejects_witness :
  is_phone_valid (lit "12345") = false /\
  is_phone_valid (lit "123-456-78") = false.
Proof.
  split.
  - apply (proj1 (is_phone_valid_rejects (lit "12345"))). discriminate.
  - apply (proj2 (is_phone_valid_rejects (lit "123-456-78")) 45%N).
    + do 3 right. left.
    + reflexivity.
    + reflexivity.
Defined.

(** ** More on the phone list *)

Lemma mkPhone_value (p : Phone) : mkPhone (value p) = p.
Proof. by destruct p. Qed.

Lemma record_eta (r : ContactRecord) :
  {| name := name r; phones := phones r |} = r.
Proof. by destruct r. Qed.

Lemma absent_values (phone : pystr) (l : list Phone) :
  absent phone l <-> phone ∉ map value l.
Proof.
  unfold absent. rewrite Forall_forall. split.
  - intros H (p & -> & Hp)%list_elem_of_fmap. by apply (H p).
  - intros H p Hp E. apply H. rewrite <- E. by apply list_elem_of_fmap_2.
Qed.

Lemma find_phone_loop_app (phone : pystr) (l1 l2 : list Phone) :
  find_phone_loop phone (l1 ++ l2) =
  match find_phone_loop phone l1 with
  | Some p => Some p
  | None => find_phone_loop phone l2
  end.
Proof.
  induction l1 as [|q l1 IH]; simpl; [done|].
  by destruct (decide (value q = phone)).
Qed.

Lemma find_phone_loop_skip (phone : pystr) (l1 l2 : list Phone) (x : Phone) :
  value x <> phone ->
  find_phone_loop phone (l1 ++ x :: l2) = find_phone_loop phone (l1 ++ l2).
Proof.
  intros Hx. rewrite !find_phone_loop_app. simpl. by rewrite decide_False.
Qed.

(** X3: every phone of a record built through the class passed
    [is_phone_valid]: it has ten characters, each with a numeric value. *)
Theorem stored_phones_pass_check (r : ContactRecord) (p : Phone) :
  constructed r -> p ∈ phones r ->
  is_phone_valid (value p) = true /\ len (value p) = 10 /\
  Forall (fun c => isnumeric_char c = true) (value p).
Proof.
  intros Hc Hp. apply constructed_checked in Hc. unfold phones_checked in Hc.
  rewrite Forall_forall in Hc. specialize (Hc p Hp).
  split; [done|]. by apply is_phone_valid_iff.
Qed.

Lemma stored_phones_pass_check_witness :
  is_phone_valid (value (mkPhone (lit "1234567890"))) = true /\
  len (value (mkPhone (lit "1234567890"))) = 10 /\
  Forall (fun c => isnumeric_char c = true) (value (mkPhone (lit "1234567890"))).
Proof.
  apply (stored_phones_pass_check three_record (mkPhone (lit "1234567890"))).
  - repeat apply constructed_add_phone. constructor.
  - right. left.
Defined.

(** X4: [find_phone(p)] returns a phone of value [p] when [p] is among the
    stored values and [None] otherwise. *)
Theorem find_phone_by_membership (r : ContactRecord) (p : pystr) :
  (p ∈ map value (phones r) -> find_phone r p = Some (mkPhone p)) /\
  (p ∉ map value (phones r) -> find_phone r p = None).
Proof.
  split.
  - intros Hin. destruct (find_phone r p) as [q|] eqn:Hf.
    + apply find_phone_loop_value in Hf as [<- _]. by rewrite mkPhone_value.
    + apply find_phone_None, absent_values in Hf. contradiction.
  - intros Hout. by apply find_phone_None, absent_values.
Qed.

Lemma find_phone_by_membership_witness :
  find_phone three_record (lit "1234567890") = Some (mkPhone (lit "1234567890")) /\
  find_phone three_record (lit "0000000000") = None.
Proof.
  split.
  - apply (proj1 (find_phone_by_membership three_record (lit "1234567890"))).
    right. left.
  - apply (proj2 (find_phone_by_membership three_record (lit "0000000000"))).
    intros H. repeat (apply elem_of_cons in H as [H|H]; [discriminate H|]).
    by apply elem_of_nil in H.
Defined.

(** X5: when no stored phone has the value [p], [add_phone(p)] followed by
    [remove_phone(p)] gives the record back, whether [p] is valid or not. *)
Theorem add_then_remove (r : ContactRecord) (p : pystr) :
  absent p (phones r) -> remove_phone (add_phone r p) p = r.
Proof.
  intros Ha. unfold add_phone. destruct (is_phone_valid p).
  - rewrite (remove_phone_first _ p (phones r) [] (mkPhone p)) by done.
    simpl. rewrite app_nil_r. apply record_eta.
  - by apply remove_phone_absent.
Qed.

Lemma add_then_remove_witness :
  remove_phone (add_phone three_record (lit "0987654321")) (lit "0987654321")
    = three_record.
Proof.
  apply (add_then_remove three_record (lit "0987654321")).
  repeat constructor; discriminate.
Defined.

(** X6: on a record built through the class, when no stored phone has the
    value [new], [edit_phone(old, new)] followed by [edit_phone(new, old)]
    gives the record back. *)
Theorem edit_then_edit_back (r : ContactRecord) (old_value new_value : pystr) :
  constructed r -> absent new_value (phones r) ->
  edit_phone (edit_phone r old_value new_value) new_value old_value = r.
Proof.
  intros Hc Hn.
  destruct (absent_or_first old_value (phones r))
    as [Ho|(l1 & p & l2 & E & H1 & Hp)].
  { rewrite (edit_phone_absent r old_value) by done. by apply edit_phone_absent. }
  destruct (is_phone_valid new_value) eqn:Hv.
  - rewrite (edit_phone_first r old_value new_value l1 l2 p) by done.
    assert (Hold : is_phone_valid old_value = true).
    { apply constructed_checked in Hc. unfold phones_checked in Hc.
      rewrite E in Hc. apply Forall_app in Hc as [_ Hc].
      apply Forall_inv in Hc. congruence. }
    rewrite E in Hn. apply Forall_app in Hn as [Hn1 _].
    rewrite (edit_phone_first _ new_value old_value l1 l2 (mkPhone new_value))
      by done.
    simpl. rewrite <- Hp, mkPhone_value, <- E. apply record_eta.
  - rewrite (edit_phone_invalid r old_value) by done. by apply edit_phone_absent.
Qed.

Lemma edit_then_edit_back_witness :
  edit_phone (edit_phone three_record (lit "5555555555") (lit "0987654321"))
    (lit "0987654321") (lit "5555555555") = three_record.
Proof.
  apply (edit_then_edit_back three_record (lit "5555555555") (lit "0987654321")).
  - repeat apply constructed_add_phone. constructor.
  - repeat constructor; discriminate.
Defined.

(** X7: how many stored phones have a value [q]: [add_phone(p)] raises the
    count of [p] by one when [p] is valid, [remove_phone(p)] lowers the count
    of [p] by one unless it is zero, and neither changes the count of any
    other value. *)
Theorem phone_counts (r : ContactRecord) (p q : pystr) :
  occurrences q (phones (add_phone r p))
    = occurrences q (phones r)
      + (if is_phone_valid p then if decide (p = q) then 1 else 0 else 0) /\
  occurrences q (phones (remove_phone r p))
    = occurrences q (phones r) - (if decide (p = q) then 1 else 0).
Proof.
  split.
  - unfold add_phone. destruct (is_phone_valid p); [simpl|lia].
    rewrite occurrences_app, occurrences_cons. cbn [value mkPhone].
    change (occurrences q []) with 0. destruct (decide (p = q)); lia.
  - destruct (absent_or_first p (phones r)) as [H|(l1 & x & l2 & E & H1 & Hx)].
    + rewrite remove_phone_absent by done.
      destruct (decide (p = q)) as [<-|_]; [|lia].
      apply occurrences_absent in H. lia.
    + rewrite (remove_phone_first r p l1 l2 x) by done. rewrite E. simpl.
      rewrite !occurrences_app, occurrences_cons, Hx.
      destruct (decide (p = q)); lia.
Qed.

(** X8: a successful [edit_phone(old, new)] moves one unit of count from
    [old] to [new] and changes the count of no other value. *)
Theorem edit_phone_counts (r : ContactRecord) (old_value new_value q : pystr) :
  is_phone_valid new_value = true -> find_phone r old_value <> None ->
  occurrences q (phones (edit_phone r old_value new_value))
    + (if decide (old_value = q) then 1 else 0)
  = occurrences q (phones r) + (if decide (new_value = q) then 1 else 0).
Proof.
  intros Hv Hf.
  destruct (absent_or_first old_value (phones r))
    as [H|(l1 & p & l2 & E & H1 & Hp)]; [by apply find_phone_None in H|].
  rewrite (edit_phone_first r old_value new_value l1 l2 p) by done.
  rewrite E. simpl. rewrite !occurrences_app, !occurrences_cons, Hp. simpl.
  destruct (decide (old_value = q)), (decide (new_value = q)); lia.
Qed.

Lemma edit_phone_counts_witness :
  occurrences (lit "5555555555")
      (phones (edit_phone three_record (lit "5555555555") (lit "0987654321")))
    + (if decide (lit "5555555555" = lit "5555555555") then 1 else 0)
  = occurrences (lit "5555555555") (phones three_record)
    + (if decide (lit "0987654321" = lit "5555555555") then 1 else 0).
Proof.
  apply (edit_phone_counts three_record (lit "5555555555") (lit "0987654321")
           (lit "5555555555")); [reflexivity | discriminate].
Defined.

(** X9: the methods never touch the name; [add_phone] lengthens the phone
    list by one exactly when the phone is valid, [remove_phone] shortens it
    by one exactly when the value is stored, and [edit_phone] keeps its
    length. *)
Theorem methods_name_and_length (r : ContactRecord) (p old_value new_value : pystr) :
  name (add_phone r p) = name r /\
  name (remove_phone r p) = name r /\
  name (edit_phone r old_value new_value) = name r /\
  length (phones (add_phone r p))
    = length (phones r) + (if is_phone_valid p then 1 else 0) /\
  length (phones (remove_phone r p))
    = length (phones r)
      - match find_phone r p with Some _ => 1 | None => 0 end /\
  length (phones (edit_phone r old_value new_value)) = length (phones r).
Proof.
  split; [apply method_call_name; constructor|].
  split; [apply method_call_name; constructor|].
  split; [apply method_call_name; constructor|].
  split; [|split].
  - unfold add_phone. destruct (is_phone_valid p); [simpl|lia].
    rewrite length_app. simpl. lia.
  - destruct (absent_or_first p (phones r)) as [H|(l1 & x & l2 & E & H1 & Hx)].
    + rewrite remove_phone_absent by done.
      apply find_phone_None in H. rewrite H. lia.
    + rewrite (remove_phone_first r p l1 l2 x) by done.
      unfold find_phone. rewrite E, (find_phone_loop_first p l1 l2 x) by done.
      simpl. rewrite !length_app. simpl. lia.
  - destruct (is_phone_valid new_value) eqn:Hv;
      [|by rewrite edit_phone_invalid].
    destruct (absent_or_first old_value (phones r))
      as [H|(l1 & x & l2 & E & H1 & Hx)]; [by rewrite edit_phone_absent|].
    rewrite (edit_phone_first r old_value new_value l1 l2 x) by done.
    rewrite E. simpl. by rewrite !length_app.
Qed.

(** X10: a method called with the value [p] (or with [old] and [new]) does
    not change what [find_phone] answers for any other value. *)
Theorem find_phone_other (r : ContactRecord) (p old_value new_value q : pystr) :
  (p <> q -> find_phone (add_phone r p) q = find_phone r q) /\
  (p <> q -> find_phone (remove_phone r p) q = find_phone r q) /\
  (old_value <> q -> new_value <> q ->
     find_phone (edit_phone r old_value new_value) q = find_phone r q).
Proof.
  unfold find_phone. split; [|split].
  - intros Hne. unfold add_phone. destruct (is_phone_valid p); [simpl|done].
    rewrite find_phone_loop_app. simpl. rewrite decide_False by done.
    by destruct (find_phone_loop q (phones r)).
  - intros Hne.
    destruct (absent_or_first p (phones r)) as [H|(l1 & x & l2 & E & H1 & Hx)].
    + by rewrite remove_phone_absent.
    + rewrite (remove_phone_first r p l1 l2 x) by done. rewrite E. simpl.
      symmetry. apply find_phone_loop_skip. congruence.
  - intros Ho Hn. destruct (is_phone_valid new_value) eqn:Hv;
      [|by rewrite edit_phone_invalid].
    destruct (absent_or_first old_value (phones r))
      as [H|(l1 & x & l2 & E & H1 & Hx)]; [by rewrite edit_phone_absent|].
    rewrite (edit_phone_first r old_value new_value l1 l2 x) by done.
    rewrite E. simpl.
    rewrite (find_phone_loop_skip q l1 l2 x) by congruence.
    by apply find_phone_loop_skip.
Qed.

Lemma find_phone_other_witness :
  find_phone (add_phone three_record (lit "0987654321")) (lit "1234567890")
    = find_phone three_record (lit "1234567890") /\
  find_phone (remove_phone three_record (lit "5555555555")) (lit "1234567890")
    = find_phone three_record (lit "1234567890") /\
  find_phone (edit_phone three_record (lit "5555555555") (lit "0987654321"))
      (lit "1234567890")
    = find_phone three_record (lit "1234567890").
Proof.
  split; [|split].
  - apply (proj1 (find_phone_other three_record (lit "0987654321") [] []
                    (lit "1234567890"))). discriminate.
  - apply (proj1 (proj2 (find_phone_other three_record (lit "5555555555") [] []
                           (lit "1234567890")))). discriminate.
  - apply (proj2 (proj2 (find_phone_other three_record [] (lit "5555555555")
                           (lit "0987654321") (lit "1234567890"))));
      discriminate.
Defined.

(** ** More on the display *)

Lemma join_snoc (sep x : pystr) (items : list pystr) :
  join sep (items ++ [x]) =
  match items with
  | [] => x
  | _ :: _ => join sep items ++ sep ++ x
  end.
Proof.
  induction items as [|y items IH]; [done|].
  destruct items as [|z items]; [done|].
  change (join sep ((y :: z :: items) ++ [x]))
    with (y ++ sep ++ join sep ((z :: items) ++ [x])).
  rewrite IH.
  change (join sep (y :: z :: items)) with (y ++ sep ++ join sep (z :: items)).
  by rewrite <- !app_assoc.
Qed.

(** X11: adding a valid phone extends the display string of the record by
    that phone, after the separator [; ] when the record had a phone. *)
Theorem Record_str_add_phone (r : ContactRecord) (p : pystr) :
  is_phone_valid p = true ->
  Record_str (add_phone r p) =
  Record_str r ++ match phones r with [] => p | _ :: _ => lit "; " ++ p end.
Proof.
  intros Hv. unfold add_phone, Record_str. rewrite Hv. cbn [name phones].
  rewrite map_app. cbn [map value mkPhone]. rewrite join_snoc.
  destruct (phones r) as [|x l]; cbn [map join].
  - by rewrite !app_nil_r, <- !app_assoc.
  - by rewrite <- !app_assoc.
Qed.

Lemma Record_str_add_phone_witness :
  Record_str (add_phone three_record (lit "0987654321")) =
  Record_str three_record
    ++ match phones three_record with
       | [] => lit "0987654321"
       | _ :: _ => lit "; " ++ lit "0987654321"
       end.
Proof.
  apply (Record_str_add_phone three_record (lit "0987654321")). reflexivity.
Defined.

(** ** More on the address book *)

(** The membership test of [delete] is not observable. *)
Lemma delete_unguarded (n : pystr) (w : World) :
  AddressBook.delete n w
  = {| heap := heap w; data := base.delete n (data w) |}.
Proof.
  unfold AddressBook.delete. case_decide as H; [done|].
  rewrite delete_id by (by apply eq_None_not_Some). by destruct w.
Qed.

Lemma run_jane_booked_world : run jane_booked_world.
Proof.
  apply (run_step jane_world); [exact run_jane_world|].
  exact (step_add_record jane_world 1%positive jane_booked_world eq_refl).
Defined.

(** X12: adding a live record under a name that is not a key and then
    deleting that name gives the state back. *)
Theorem add_record_then_delete (w : World) (record : loc) (r : ContactRecord) :
  heap w !! record = Some r ->
  AddressBook.find (value (name r)) w = None ->
  exists w', AddressBook.add_record record w = Some w' /\
             AddressBook.delete (value (name r)) w' = w.
Proof.
  intros Hr Hf. unfold AddressBook.add_record. rewrite Hr.
  eexists. split; [reflexivity|].
  rewrite delete_unguarded. simpl.
  rewrite delete_insert_id by exact Hf. by destruct w.
Qed.

Lemma add_record_then_delete_witness :
  exists w', AddressBook.add_record 1%positive john_world = Some w' /\
             AddressBook.delete (value (name (Record_init (lit "Jane Doe")))) w'
             = john_world.
Proof.
  apply (add_record_then_delete john_world 1%positive
           (Record_init (lit "Jane Doe"))); reflexivity.
Defined.



(** X14: in every state reached through the two classes, [find(k)] returns
    only a live record whose name is [k], so that no record is filed under
    two names. *)
Theorem find_returns_named_record (w : World) (k : pystr) (l : loc) :
  run w -> AddressBook.find k w = Some l ->
  (exists r, heap w !! l = Some r /\ value (name r) = k) /\
  (forall k', AddressBook.find k' w = Some l -> k' = k).
Proof.
  intros Hrun Hf. apply run_keyed_by_name in Hrun.
  destruct (Hrun k l Hf) as (r & Hr & Hk). split; [by exists r|].
  intros k' Hf'. destruct (Hrun k' l Hf') as (r' & Hr' & Hk'). congruence.
Qed.

Lemma find_returns_named_record_witness :
  (exists r, heap jane_booked_world !! 1%positive = Some r /\
             value (name r) = lit "Jane Doe") /\
  (forall k', AddressBook.find k' jane_booked_world = Some 1%positive ->
              k' = lit "Jane Doe").
Proof.
  apply (find_returns_named_record jane_booked_world (lit "Jane Doe") 1%positive).
  - exact run_jane_booked_world.
  - reflexivity.
Defined.

Lemma run_heap_constructed (w : World) (l : loc) (r : ContactRecord) :
  run w -> heap w !! l = Some r -> constructed r.
Proof.
  intros Hrun. revert l r.
  induction Hrun as [|w w' _ IH [l0 n Hl|l0 r0 r' Hl Hc|record w'' Ha|n res _|n]];
    intros l r; simpl.
  - by rewrite lookup_empty.
  - destruct (decide (l0 = l)) as [<-|Hne].
    + rewrite lookup_insert_eq. intros [= <-]. constructor.
    + rewrite lookup_insert_ne by done. apply IH.
  - destruct (decide (l0 = l)) as [<-|Hne].
    + rewrite lookup_insert_eq. intros [= <-].
      apply (constructed_call r0); [by apply (IH l0)|done].
    + rewrite lookup_insert_ne by done. apply IH.
  - unfold AddressBook.add_record in Ha.
    destruct (heap w !! record); [|discriminate].
    injection Ha as <-. apply IH.
  - apply IH.
  - rewrite delete_unguarded. apply IH.
Qed.

(** X15: in every state reached through the two classes, every phone of
    every record, in the book or not, passed [is_phone_valid], whatever
    mixture of record and book calls led there. *)
Theorem run_phones_checked (w : World) (l : loc) (r : ContactRecord) (p : Phone) :
  run w -> heap w !! l = Some r -> p ∈ phones r ->
  is_phone_valid (value p) = true.
Proof.
  intros Hrun Hl Hp.
  pose proof (constructed_checked r (run_heap_constructed w l r Hrun Hl)) as Hc.
  unfold phones_checked in Hc. rewrite Forall_forall in Hc. by apply Hc.
Qed.

Lemma run_phones_checked_witness :
  is_phone_valid (value (mkPhone (lit "1234567890"))) = true.
Proof.
  apply (run_phones_checked jane_booked_world 1%positive jane_with_phone
           (mkPhone (lit "1234567890"))).
  - exact run_jane_booked_world.
  - reflexivity.
  - left.
Defined.
